(** * dcs-branch-merger: the PRPromise combinators of [src/core/PRPromise.js]

  A [PRPromise<R,A>] of the source is a JavaScript function
  [(r : R) => Promise<A>].  The embedding below keeps that shape:

  - a JavaScript value that travels through a promise (a success value or
    a rejection reason) is a [value];
  - a promise is modelled by the operation it stands for: a transformer of
    the world (everything the operation can observe or change) that ends
    with the settlement of the promise, [Fulfilled] or [Rejected];
  - [p.then(cb)] and [p.catch(cb)] run the callback after the settlement
    of [p], in the world [p] left behind;
  - a PRPromise is a function from the environment to such a promise.

  Every promise settles: an operation that stays pending for ever has no
  model here.  The functions handed to the combinators ([fn] of [map], the
  continuations of [then], [f] of [forEveryFirst]) return without throwing;
  what they do when run is in the effect they return. *)

From stdpp Require Import base gmap strings list pretty.

(** ** JavaScript data *)

(** Object references. *)
Abbreviation loc := positive.

(** The values a promise is settled with.  Numbers are the integer-valued
  ones; objects are references into the heap. *)
Inductive value : Type :=
| VUndefined
| VNull
| VBool (b : bool)
| VNum (n : Z)
| VStr (s : string)
| VObj (l : loc).

(** [a === null] *)
Definition strict_eq_null (a : value) : bool :=
match a with
| VNull => true
| _ => false
end.

(** The settlement of a promise: fulfilled with a value, or rejected with a
  reason ([Promise.reject()] rejects with [undefined]). *)
Inductive Settled : Type :=
| Fulfilled (a : value)
| Rejected (reason : value).

(** ** Promises *)

Module Promise.
Section Promise.
Context {W : Type}.

(** The operation behind a promise, started in world [w], leaves a world
    and a settlement. *)
Definition t : Type := W -> W * Settled.

(** [Promise.resolve(a)] *)
Definition resolve (a : value) : t := fun w => (w, Fulfilled a).

(** [Promise.reject(x)]; [Promise.reject()] is [reject VUndefined] *)
Definition reject (x : value) : t := fun w => (w, Rejected x).

(** [p.then(cb)]: on fulfilment the callback runs and the derived promise
    adopts what the callback returns; a rejection passes through. *)
Definition then_ (p : t) (cb : value -> t) : t :=
  fun w =>
    match p w with
    | (w', Fulfilled a) => cb a w'
    | (w', Rejected x) => (w', Rejected x)
    end.

(** [p.catch(cb)]: on rejection the callback runs and the derived promise
    adopts what the callback returns; a fulfilment passes through. *)
Definition catch (p : t) (cb : value -> t) : t :=
  fun w =>
    match p w with
    | (w', Fulfilled a) => (w', Fulfilled a)
    | (w', Rejected x) => cb x w'
    end.
End Promise.
Arguments t : clear implicits.
End Promise.

(** ** The combinators of PRPromise.js *)

Module PRP.
Section Combinators.
Context {W R : Type}.

(** [type PRPromise<R,A> = (r : R) => Promise<A>] *)
Definition PRPromise : Type := R -> Promise.t W.

(** [map = (fn, pr) => r => pr(r).then(a => fn(a))] *)
Definition map (fn : value -> value) (pr : PRPromise) : PRPromise :=
  fun r => Promise.then_ (pr r) (fun a => Promise.resolve (fn a)).

(** [pure = (a) => (_) => Promise.resolve(a)] *)
Definition pure (a : value) : PRPromise :=
  fun _ => Promise.resolve a.

(** [then = (pr, ...fns) => r =>
       fns.reduce((accPr, f) => accPr.then(b => f(b)(r)), pr(r))] *)
Definition then_ (pr : PRPromise) (fns : list (value -> PRPromise))
  : PRPromise :=
  fun r =>
    fold_left (fun accPr f => Promise.then_ accPr (fun b => f b r))
              fns (pr r).

(** [empty = () => Promise.reject()].  The arrow function declares no
    parameter, so whatever it is called with is dropped. *)
Definition empty : PRPromise :=
  fun _ => Promise.reject VUndefined.

(** [or = (pr1, pr2) => (r) => pr1(r).catch(() => pr2(r))] *)
Definition or (pr1 pr2 : PRPromise) : PRPromise :=
  fun r => Promise.catch (pr1 r) (fun _ => pr2 r).

(** [chain = (f,g) => (a) => then(f(a), g)] *)
Definition chain (f g : value -> PRPromise) : value -> PRPromise :=
  fun a => then_ (f a) [g].

(** [forEveryFirst = (f, xs) => {
       const rejectOnNull = (a) => a === null ? empty : pure(a)
       return xs.reduce((p, x) => or(p, then(f(x), rejectOnNull)), empty) }] *)
Definition rejectOnNull (a : value) : PRPromise :=
  if strict_eq_null a then empty else pure a.

Definition forEveryFirst {X : Type} (f : X -> PRPromise) (xs : list X)
  : PRPromise :=
  fold_left (fun p x => or p (then_ (f x) [rejectOnNull])) xs empty.

(** [when = (f, a) => (r) => f(r) ? pure(a)(r) : empty(r)] *)
Definition when (f : R -> bool) (a : value) : PRPromise :=
  fun r => if f r then pure a r else empty r.
End Combinators.
Arguments PRPromise : clear implicits.

(** *** Environments in the heap

    An environment record is a JavaScript object; [extendConfig] reads two
    of them and allocates a third.  Objects live in the heap of the world,
    a map from references to the own enumerable properties of each object;
    [rest] is whatever else the world holds. *)

Record World (X : Type) : Type := mkWorld {
  heap : gmap loc (gmap string value);
  rest : X
}.
Arguments mkWorld {X} _ _.
Arguments heap {X} _.
Arguments rest {X} _.

Section Config.
Context {X : Type}.

(** The own enumerable properties a spread [...v] copies: those of the
    object [v] refers to, the characters of a string under their indices,
    and nothing for [undefined], [null], booleans and numbers. *)
Definition own_props (h : gmap loc (gmap string value)) (v : value)
  : gmap string value :=
  match v with
  | VObj l => default ∅ (h !! l)
  | VStr s =>
      list_to_map
        (imap (fun (i : nat) c => (pretty i, VStr (String c EmptyString)))
              (String.list_ascii_of_string s))
  | _ => ∅
  end.

(** One spread element of an object literal, [{...target, ...src}] seen
    from the properties collected so far: every property of [src] is
    defined on the new object, over a property of the same name. *)
Definition spread (target src : gmap string value) : gmap string value :=
  src ∪ target.

(** [extendConfig = (c, p) => (r) => p({...r, ...c})] *)
Definition extendConfig (c : value) (p : PRPromise (World X) value)
  : PRPromise (World X) value :=
  fun r w =>
    let o := spread (spread ∅ (own_props (heap w) r)) (own_props (heap w) c) in
    let l := fresh (dom (heap w)) in
    p (VObj l) (mkWorld (<[l := o]> (heap w)) (rest w)).
End Config.

(** *** Calling what a combinator returns

    [pure(a)] evaluates to a function of the environment; [empty()], the
    call of [empty] with no argument, evaluates to the promise
    [Promise.reject()] itself.  Calling a value that is not a function
    throws a [TypeError] before any promise exists. *)

Section Calls.
Context {W R : Type}.

Inductive returned : Type :=
| IsFunction (f : PRPromise W R)
| IsPromise (p : Promise.t W).

Inductive completion : Type :=
| Returns (p : Promise.t W)
| ThrowsTypeError.

(** [callee(r)] *)
Definition call (callee : returned) (r : R) : completion :=
  match callee with
  | IsFunction f => Returns (f r)
  | IsPromise _ => ThrowsTypeError
  end.

(** Running [callee] as a PRPromise against [r] in world [w]: the world
    and settlement it ends with, if the call yields a promise at all. *)
Definition run (callee : returned) (r : R) (w : W) : option (W * Settled) :=
  match call callee r with
  | Returns p => Some (p w)
  | ThrowsTypeError => None
  end.
End Calls.
Arguments returned : clear implicits.
Arguments completion : clear implicits.

(** The expression [pure(a)]. *)
Definition pure_call {W R : Type} (a : value) : returned W R :=
  IsFunction (pure a).

(** The expression [empty()]: the missing argument is [undefined]. *)
Definition empty_call {W R : Type} : returned W R :=
  IsPromise (@empty W value VUndefined).

(** *** Observing invocations

    A test double in the manner of a spy: [spy e] behaves as [e] and also
    appends the environment it was invoked with to a log that sits next to
    the world of [e], out of the reach of [e]. *)

Definition spy {W R : Type} (e : PRPromise W R) : PRPromise (W * list R) R :=
  fun r ws =>
    let '(w', s) := e r (fst ws) in
    ((w', snd ws ++ [r]), s).

(** *** Exhausting a list of candidates

    [exhaust f r xs w] tries the effects [f x], for [x] in [xs] in list
    order, against [r], each in the world its predecessor left.  It is
    [Some w'] when every one of them is rejected or fulfilled with [null],
    [w'] being the world after the last; it is [None] as soon as one is
    fulfilled with another value. *)

Fixpoint exhaust {W R X : Type} (f : X -> PRPromise W R) (r : R)
  (xs : list X) (w : W) : option W :=
  match xs with
  | [] => Some w
  | x :: xs' =>
      match f x r w with
      | (w1, Fulfilled a) =>
          if strict_eq_null a then exhaust f r xs' w1 else None
      | (w1, Rejected _) => exhaust f r xs' w1
      end
  end.

(** *** Effects used as concrete inputs *)

(** An effect that counts its invocations in the world and succeeds
    with [a]. *)
Definition counted (a : value) : PRPromise nat value :=
  fun _ n => (S n, Fulfilled a).

(** An effect that counts its invocations in the world and fails. *)
Definition counted_failure : PRPromise nat value :=
  fun _ n => (S n, Rejected (VStr "TypeError: Failed to fetch")).

(** A continuation that counts the run of its effect and succeeds with the
    value it was given. *)
Definition counted_echo : value -> PRPromise nat value :=
  fun b => counted b.

(** The candidates of the ordering scenario: the effect of item [1]
    succeeds with [null], that of item [2] fails, that of any other item
    [n] succeeds with [n * 10]; each records its item in the world when it
    is run. *)
Definition candidate (n : Z) : PRPromise (list Z) value :=
  fun _ tried =>
    (tried ++ [n],
     if decide (n = 1%Z) then Fulfilled VNull
     else if decide (n = 2%Z) then Rejected VUndefined
     else Fulfilled (VNum (n * 10)%Z)).

(** Candidates for a search: [true] succeeds with [null], [false] fails
    with the reason of a failed request; both count their run. *)
Definition null_or_failure (b : bool) : PRPromise nat value :=
  if b then counted VNull else counted_failure.

(** An effect that records the fields of the environment it is given and
    succeeds with its [owner]; it writes to no object. *)
Definition observe : PRPromise (World (list (gmap string value))) value :=
  fun r w =>
    let fields := own_props (heap w) r in
    (mkWorld (heap w) (rest w ++ [fields]),
     Fulfilled (default VUndefined (fields !! "owner"))).

(** The environment [{server:"A", owner:"B"}] at reference 1 and the record
    [{owner:"C"}] at reference 2. *)
Definition two_records : World (list (gmap string value)) :=
  mkWorld
    (<[1%positive := <["server" := VStr "A"]> (<["owner" := VStr "B"]> ∅)]>
       (<[2%positive := <["owner" := VStr "C"]> ∅]> ∅))
    [].

(** A reference is live when the heap holds its object; other values
    refer to nothing. *)
Definition live (h : gmap loc (gmap string value)) (v : value) : Prop :=
  match v with
  | VObj l => h !! l <> None
  | _ => True
  end.

(** The continuations of a [then], each under a [spy]. *)
Definition spy_each {W R : Type} (fns : list (value -> PRPromise W R))
  : list (value -> PRPromise (W * list R) R) :=
  List.map (fun f b => spy (f b)) fns.

(** ** Leaf effects

    [repoGetJSON] of PRPromise.js and [getPrJson], the function the header
    of PRPromise.js starts from, read the environment and call out.  What
    they call is not part of the sources and is taken as given: the string
    constant [apiPath] of [./constants], the text of a number, the global
    [fetch] (the promise of a response for a URL), [res.json()] on a
    response, [Path.join] of the package [path] (a joined path, or the
    error it throws), and the [TypeError] the engine throws when [undefined]
    or [null] is destructured. *)

(** [undefined] and [null], the values destructuring throws on. *)
Definition nullish (v : value) : bool :=
  match v with
  | VUndefined | VNull => true
  | _ => false
  end.

(** [r.k] for the field names read below: an own property of the record, or
    [undefined]. *)
Definition get (h : gmap loc (gmap string value)) (r : value) (k : string)
  : value :=
  default VUndefined (own_props h r !! k).

Section Leaves.
Context {X : Type}.
Variable apiPath : string.
Variable Number_toString : Z -> string.
Variable fetch : string -> Promise.t (World X).
Variable json : value -> Promise.t (World X).
Variable Path_join : list value -> value + string.
Variable cannot_destructure : value -> value.

(** The text of a value in a template literal or under [+] with a string;
    a record has the text of [Object.prototype.toString]. *)
Definition ToString (v : value) : string :=
  match v with
  | VUndefined => "undefined"
  | VNull => "null"
  | VBool true => "true"
  | VBool false => "false"
  | VNum n => Number_toString n
  | VStr s => s
  | VObj _ => "[object Object]"
  end.

(** [`${server}/${apiPath}/repos/${owner}/${repo}/${path}`] *)
Definition repo_url (h : gmap loc (gmap string value)) (path r : value)
  : string :=
  ToString (get h r "server") +:+ "/" +:+ apiPath +:+ "/repos/"
  +:+ ToString (get h r "owner") +:+ "/" +:+ ToString (get h r "repo")
  +:+ "/" +:+ ToString path.

(** [repoGetJSON = (path) => ({server, owner, repo}) =>
       fetch(`${server}/${apiPath}/repos/${owner}/${repo}/${path}`)
       .then(r => r.json())]

    The function is not [async]: destructuring [undefined] or [null] throws
    out of the call, and there is no promise ([None]). *)
Definition repoGetJSON (path : value) (r : value) (w : World X)
  : option (World X * Settled) :=
  if nullish r then None
  else
    Some (Promise.then_ (fetch (repo_url (heap w) path r))
                        (fun res => json res) w).

(** [export async function getPrJson({server, owner, repo, prId}) {
       const date = new Date(Date.now())
       const dateString = date.toISOString()
       const uri = "https://" + server + '/'
                   + Path.join(apiPath,'repos',owner,repo,'pulls', prId)
       let res = {}
       try { res = await fetch(uri); } catch (e) { return null }
       return res.json() }]

    The function is [async]: what is thrown in it rejects its promise.  The
    date and the first value of [res] are never used. *)
Definition getPrJson : PRPromise (World X) value :=
  fun r w =>
    if nullish r then (w, Rejected (cannot_destructure r))
    else
      match Path_join [VStr apiPath; VStr "repos"; get (heap w) r "owner";
                       get (heap w) r "repo"; VStr "pulls";
                       get (heap w) r "prId"] with
      | inl thrown => (w, Rejected thrown)
      | inr path =>
          let uri :=
            "https://" +:+ ToString (get (heap w) r "server") +:+ "/" +:+ path in
          match fetch uri w with
          | (w1, Rejected _) => (w1, Fulfilled VNull)
          | (w1, Fulfilled res) => json res w1
          end
      end.
End Leaves.

(** *** Stand-ins for the network, used as concrete inputs

    The world keeps the list of the URLs requested. *)

(** A network that is down: the request is recorded and fails. *)
Definition fetch_down : string -> Promise.t (World (list string)) :=
  fun url w =>
    (mkWorld (heap w) (rest w ++ [url]),
     Rejected (VStr "TypeError: Failed to fetch")).

(** A network that answers: the request is recorded and the response stands
    for the URL it answers. *)
Definition fetch_up : string -> Promise.t (World (list string)) :=
  fun url w => (mkWorld (heap w) (rest w ++ [url]), Fulfilled (VStr url)).

(** A response whose body is the response itself. *)
Definition json_echo : value -> Promise.t (World (list string)) :=
  fun res => Promise.resolve res.

(** A response whose body is not JSON. *)
Definition json_broken : value -> Promise.t (World (list string)) :=
  fun _ => Promise.reject (VStr "SyntaxError: Unexpected token").

(** A join that accepts strings only and puts a slash between them. *)
Definition join_strings (parts : list value) : value + string :=
  foldr (fun part acc =>
           match part, acc with
           | VStr s, inr rest => inr (if decide (rest = "") then s
                                      else s +:+ "/" +:+ rest)
           | VStr _, inl thrown => inl thrown
           | _, _ => inl (VStr "TypeError: Arguments to path.join must be strings")
           end)
        (inr "") parts.

Definition destructure_error (v : value) : value :=
  VStr "TypeError: Cannot destructure".

(** The environment
    [{server:"qa.door43.org", owner:"unfoldingword", repo:"en_ult",
      prId:"3358"}]. *)
Definition full_record : gmap string value :=
  <["server" := VStr "qa.door43.org"]>
    (<["owner" := VStr "unfoldingword"]>
       (<["repo" := VStr "en_ult"]> (<["prId" := VStr "3358"]> ∅))).

(** An environment without [owner]. *)
Definition ownerless_record : gmap string value :=
  <["server" := VStr "qa.door43.org"]> (<["repo" := VStr "en_ult"]> ∅).

(** A world with [full_record] at reference 1, the record [{prId:"2"}] at
    reference 2 and [ownerless_record] at reference 3; nothing was
    requested yet. *)
Definition request_world : World (list string) :=
  mkWorld
    (<[1%positive := full_record]>
       (<[2%positive := <["prId" := VStr "2"]> ∅]>
          (<[3%positive := ownerless_record]> ∅)))
    [].

(** * Laws of the combinators *)

(** ** How [then] and [or] run *)

Section Running.
Context {W R : Type}.
Implicit Types (e pr : PRPromise W R) (r : R) (w : W) (p q : Promise.t W).
Implicit Types (fns fs gs : list (value -> PRPromise W R)).

(** The step of the [reduce] in [then]. *)
Local Abbreviation then_step r :=
  (fun accPr (f : value -> PRPromise W R) =>
     Promise.then_ accPr (fun b => f b r)).

(** What a chain of [.then] does in [w] is decided by what the promise it
    starts from does in [w]. *)
Lemma fold_then_ext fns r p q w w0 :
  p w = q w0 ->
  fold_left (then_step r) fns p w = fold_left (then_step r) fns q w0.
Proof.
  revert p q w w0.
  induction fns as [|f fns IH]; intros p q w w0 Hpq; simpl; [exact Hpq|].
  apply IH. unfold Promise.then_. by rewrite Hpq.
Qed.

(** A rejection passes through every remaining [.then]. *)
Lemma fold_then_rejected fns r p w w' x :
  p w = (w', Rejected x) ->
  fold_left (then_step r) fns p w = (w', Rejected x).
Proof.
  revert p.
  induction fns as [|f fns IH]; intros p Hp; simpl; [exact Hp|].
  apply IH. unfold Promise.then_. by rewrite Hp.
Qed.

Lemma then_nil e r w : then_ e [] r w = e r w.
Proof. reflexivity. Qed.

Lemma then_cons e f fs r w :
  then_ e (f :: fs) r w =
  match e r w with
  | (w1, Fulfilled b) => then_ (f b) fs r w1
  | (w1, Rejected x) => (w1, Rejected x)
  end.
Proof.
  unfold then_; simpl.
  destruct (e r w) as [w1 [b|x]] eqn:He.
  - apply fold_then_ext. unfold Promise.then_. by rewrite He.
  - apply fold_then_rejected. unfold Promise.then_. by rewrite He.
Qed.

Lemma then_rejected e fns r w w' x :
  e r w = (w', Rejected x) -> then_ e fns r w = (w', Rejected x).
Proof. intros He. unfold then_. by apply fold_then_rejected. Qed.

Lemma then_app e fs gs r w :
  then_ e (fs ++ gs) r w =
  match then_ e fs r w with
  | (w1, Fulfilled b) => then_ (pure b) gs r w1
  | (w1, Rejected x) => (w1, Rejected x)
  end.
Proof.
  unfold then_ at 1. rewrite fold_left_app.
  fold (then_ e fs r).
  destruct (then_ e fs r w) as [w1 [b|x]] eqn:Hfs.
  - change (then_ (pure b) gs r w1)
      with (fold_left (then_step r) gs (pure b r) w1).
    apply fold_then_ext. exact Hfs.
  - by apply fold_then_rejected.
Qed.

Lemma or_fulfilled e1 e2 r w w1 v :
  e1 r w = (w1, Fulfilled v) -> or e1 e2 r w = (w1, Fulfilled v).
Proof. intros H. unfold or, Promise.catch. by rewrite H. Qed.

Lemma or_rejected e1 e2 r w w1 x :
  e1 r w = (w1, Rejected x) -> or e1 e2 r w = e2 r w1.
Proof. intros H. unfold or, Promise.catch. by rewrite H. Qed.

End Running.

(** ** Sequencing and fallback *)

Section Laws.
Context {W R : Type}.
Implicit Types (e pr : PRPromise W R) (r : R) (w : W) (p q : Promise.t W).
Implicit Types (f g : value -> PRPromise W R).
Implicit Types (fns fs gs : list (value -> PRPromise W R)).

Local Abbreviation then_step r :=
  (fun accPr (f : value -> PRPromise W R) =>
     Promise.then_ accPr (fun b => f b r)).

(** A spied effect does what the effect does and logs its environment. *)
Lemma spy_run e r w (seen : list R) :
  spy e r (w, seen) = ((fst (e r w), seen ++ [r]), snd (e r w)).
Proof. unfold spy. simpl. by destruct (e r w). Qed.

(** A chain of [.then] over spied continuations does what the chain does
    over the continuations themselves, and logs [r] once for each
    continuation whose effect it runs. *)
Lemma fold_then_spied fns r p (P : Promise.t (W * list R)) w (seen : list R) n :
  P (w, seen) = ((fst (p w), replicate n r), snd (p w)) ->
  exists m,
    n <= m <= n + length fns /\
    fold_left (fun accPr (k : value -> PRPromise (W * list R) R) =>
                 Promise.then_ accPr (fun b => k b r))
              (spy_each fns) P (w, seen)
    = ((fst (fold_left (then_step r) fns p w), replicate m r),
       snd (fold_left (then_step r) fns p w)) /\
    (forall a, snd (fold_left (then_step r) fns p w) = Fulfilled a ->
               m = n + length fns).
Proof.
  revert p P n.
  induction fns as [|f fns IH]; intros p P n HP; simpl.
  - exists n. split; [lia|]. split; [exact HP|]. intros; lia.
  - destruct (p w) as [w1 [b|x]] eqn:Hp; simpl in HP.
    + destruct (IH (Promise.then_ p (fun b => f b r))
                   (Promise.then_ P (fun b => spy (f b) r)) (S n))
        as (m & Hm & Hrun & Hall).
      { unfold Promise.then_, spy. rewrite HP, Hp. simpl.
        destruct (f b r w1) as [w2 s]. simpl.
        by rewrite <- replicate_S_end. }
      exists m. split; [lia|]. split; [exact Hrun|].
      intros a Ha. rewrite (Hall a Ha). lia.
    + destruct (IH (Promise.then_ p (fun b => f b r))
                   (Promise.then_ P (fun b => spy (f b) r)) n)
        as (m & Hm & Hrun & Hall).
      { unfold Promise.then_. by rewrite HP, Hp. }
      exists m. split; [lia|]. split; [exact Hrun|].
      intros a Ha. exfalso.
      rewrite (fold_then_rejected fns r _ w w1 x) in Ha; [discriminate|].
      unfold Promise.then_. by rewrite Hp.
Qed.

(** A spied chain that succeeds has logged [r] once for each stage. *)
Lemma then_spied_fulfilled e fns r w w1 b :
  then_ e fns r w = (w1, Fulfilled b) ->
  then_ (spy e) (spy_each fns) r (w, [])
  = ((w1, replicate (S (length fns)) r), Fulfilled b).
Proof.
  intros Hrun.
  assert (Hfold : fold_left (then_step r) fns (e r) w = (w1, Fulfilled b))
    by exact Hrun.
  destruct (fold_then_spied fns r (e r) (spy e r) w [] 1)
    as (m & _ & Hspied & Hall); [apply spy_run|].
  rewrite Hfold in Hspied, Hall. simpl in Hspied, Hall.
  rewrite (Hall b eq_refl) in Hspied. exact Hspied.
Qed.

(** The law of the documentation of [then]:
    [then(x, f, g) <==> then(x, y => then(f(y), g)) <==> then(x, chain(f,g))]. *)
Lemma then_chain e f g r w :
  then_ e [f; g] r w = then_ e [fun y => then_ (f y) [g]] r w /\
  then_ e [f; g] r w = then_ e [chain f g] r w.
Proof.
  split; rewrite !then_cons; destruct (e r w) as [w1 [b|x]]; reflexivity.
Qed.

Lemma then_then e fs gs r w :
  then_ (then_ e fs) gs r w = then_ e (fs ++ gs) r w.
Proof. unfold then_. by rewrite fold_left_app. Qed.

(** What [pure] and [empty] do as they are written: [pure(a)] evaluates to
    an effect that, whatever the environment, leaves the world as it is and
    succeeds with [a]; the function [empty], called with an environment the
    way [forEveryFirst] and [when] call it, is rejected with [undefined];
    the call [empty()] evaluates to that rejected promise. *)
Theorem pure_succeeds_empty_fails (a : value) r w :
  run (pure_call a) r w = Some (w, Fulfilled a) /\
  pure a r w = (w, Fulfilled a) /\
  run (IsFunction empty) r w = Some (w, Rejected VUndefined) /\
  empty r w = (w, Rejected VUndefined) /\
  exists p, @empty_call W R = IsPromise p /\ p w = (w, Rejected VUndefined).
Proof.
  repeat split. by exists (Promise.reject VUndefined).
Qed.

(** C3: when [e1] run with [r] succeeds with [v], [or(e1, e2)] run with [r]
    succeeds with [v] in the very world [e1] left, whatever [e2] is; with
    both under a spy, the log holds the one invocation of [e1]: [e2] was not
    invoked.  When [e1] run with [r] fails, [or(e1, e2)] run with [r] is
    [e2] run in the world [e1] left; the spies log two invocations, both
    with [r]. *)
Theorem or_left_bias_and_fallback e1 e2 r w :
  (forall w1 v,
     e1 r w = (w1, Fulfilled v) ->
     forall e2',
       or e1 e2' r w = (w1, Fulfilled v) /\
       or (spy e1) (spy e2') r (w, []) = ((w1, [r]), Fulfilled v)) /\
  (forall w1 x,
     e1 r w = (w1, Rejected x) ->
     or e1 e2 r w = e2 r w1 /\
     or (spy e1) (spy e2) r (w, [])
     = ((fst (e2 r w1), [r; r]), snd (e2 r w1))).
Proof.
  split.
  - intros w1 v He1 e2'. split; [by apply or_fulfilled|].
    apply or_fulfilled. by rewrite spy_run, He1.
  - intros w1 x He1. split; [by eapply or_rejected|].
    rewrite (or_rejected _ _ _ _ (w1, [r]) x); [apply spy_run|].
    by rewrite spy_run, He1.
Qed.

(** C4: a failure at any stage of [then(e, fn1, ..., fnN)] is the failure
    of the whole composition, in the world the failing stage left: when [e]
    fails, and when the effect [f(b)] built by a continuation fails after
    the stages before it succeeded with [b].  The continuations after the
    failing stage ([fns], [gs]) are arbitrary and leave no trace; with every
    stage under a spy, the log holds the invocations up to the failing
    stage and no other. *)
Theorem then_short_circuit e r w :
  (forall w' x,
     e r w = (w', Rejected x) ->
     forall fns,
       then_ e fns r w = (w', Rejected x) /\
       then_ (spy e) (spy_each fns) r (w, []) = ((w', [r]), Rejected x)) /\
  (forall fs f w1 b w' x,
     then_ e fs r w = (w1, Fulfilled b) ->
     f b r w1 = (w', Rejected x) ->
     forall gs,
       then_ e (fs ++ f :: gs) r w = (w', Rejected x) /\
       then_ (spy e) (spy_each (fs ++ f :: gs)) r (w, [])
       = ((w', replicate (length fs + 2) r), Rejected x)).
Proof.
  split.
  - intros w' x He fns. split; [by apply then_rejected|].
    apply then_rejected. by rewrite spy_run, He.
  - intros fs f w1 b w' x Hfs Hf gs. split.
    + rewrite then_app, Hfs, then_cons. simpl.
      by apply then_rejected.
    + unfold spy_each. rewrite map_app. simpl.
      rewrite then_app.
      fold (spy_each fs). rewrite (then_spied_fulfilled _ _ _ _ _ _ Hfs).
      cbv beta iota. rewrite then_cons. cbv beta iota delta [pure Promise.resolve].
      apply then_rejected.
      rewrite spy_run, Hf. simpl.
      by rewrite <- replicate_S_end, Nat.add_comm.
Qed.

(** C5: [then(then(e, f), g)] and [then(e, f, g)] run against the same
    environment have the same outcome; so has the nesting to the right,
    [then(e, y => then(f(y), g))]. *)
Theorem then_assoc e f g r w :
  then_ (then_ e [f]) [g] r w = then_ e [f; g] r w /\
  then_ e [fun y => then_ (f y) [g]] r w = then_ e [f; g] r w.
Proof.
  split; [by rewrite then_then|].
  by destruct (then_chain e f g r w) as [<- _].
Qed.

(** C6: [then(e)] with no continuation, and [map(x => x, e)], run against
    an environment have the outcome of [e] run against it. *)
Theorem then_map_identity e r w :
  then_ e [] r w = e r w /\
  map (fun x => x) e r w = e r w.
Proof.
  split; [apply then_nil|].
  unfold map, Promise.then_, Promise.resolve.
  by destruct (e r w) as [w1 [b|x]].
Qed.

(** C10: [or] is associative. *)
Theorem or_assoc e1 e2 e3 r w :
  or (or e1 e2) e3 r w = or e1 (or e2 e3) r w.
Proof.
  unfold or, Promise.catch.
  by destruct (e1 r w) as [w1 [v|x]].
Qed.

End Laws.

Lemma or_left_bias_and_fallback_witness :
  or (counted (VStr "V")) counted_failure VNull 0
    = (1, Fulfilled (VStr "V")) /\
  or counted_failure (counted (VStr "W")) VNull 0
    = (2, Fulfilled (VStr "W")).
Proof.
  split.
  - apply (proj1 (or_left_bias_and_fallback
                    (counted (VStr "V")) counted_failure VNull 0)
             1 (VStr "V") eq_refl counted_failure).
  - rewrite (proj1 (proj2 (or_left_bias_and_fallback
                             counted_failure (counted (VStr "W")) VNull 0)
                      1 (VStr "TypeError: Failed to fetch") eq_refl)).
    reflexivity.
Defined.

Lemma then_short_circuit_witness :
  then_ counted_failure [counted_echo] VNull 0
    = (1, Rejected (VStr "TypeError: Failed to fetch")) /\
  then_ (counted (VNum 7))
        ([counted_echo] ++ (fun _ => counted_failure)
                        :: [counted_echo; counted_echo]) VNull 0
    = (3, Rejected (VStr "TypeError: Failed to fetch")).
Proof.
  split.
  - apply (proj1 (then_short_circuit counted_failure VNull 0)
             1 (VStr "TypeError: Failed to fetch") eq_refl [counted_echo]).
  - apply (proj2 (then_short_circuit (counted (VNum 7)) VNull 0)
             [counted_echo] (fun _ => counted_failure) 2 (VNum 7)
             3 (VStr "TypeError: Failed to fetch") eq_refl eq_refl
             [counted_echo; counted_echo]).
Defined.

(** C2: the documentation of [empty] ("Create a PRPromise that fails",
    [@returns {PRPromise<R,A>}]) and its sibling [pure] make [empty()] an
    effect that fails with no payload.  The code does not: [empty()] is the
    rejected promise itself, and run against an environment the call
    throws a [TypeError] instead of failing. *)
Lemma empty_call_is_not_an_effect :
  call (@empty_call unit value) (VObj 1) = ThrowsTypeError /\
  run (@empty_call unit value) (VObj 1) tt
    <> Some (tt, Rejected VUndefined).
Proof. split; [reflexivity | discriminate]. Qed.

(** ** First success in a list *)

Section Search.
Context {W R X : Type}.
Implicit Types (e acc : PRPromise W R) (r : R) (w : W).
Implicit Types (f : X -> PRPromise W R) (xs pre post : list X).

(** The step of the [reduce] in [forEveryFirst]. *)
Local Abbreviation search_step f :=
  (fun (p : PRPromise W R) (x : X) => or p (then_ (f x) [rejectOnNull])).

(** One candidate: [then(f(x), rejectOnNull)]. *)
Lemma candidate_run f x r w :
  then_ (f x) [rejectOnNull] r w =
  match f x r w with
  | (w1, Fulfilled a) =>
      if strict_eq_null a then (w1, Rejected VUndefined)
      else (w1, Fulfilled a)
  | (w1, Rejected y) => (w1, Rejected y)
  end.
Proof.
  rewrite then_cons.
  destruct (f x r w) as [w1 [a|y]]; [|reflexivity].
  unfold rejectOnNull. by destruct (strict_eq_null a).
Qed.

(** What the fold does in [w] is decided by what its seed does in [w]. *)
Lemma fold_or_ext f xs acc acc' r w w0 :
  acc r w = acc' r w0 ->
  fold_left (search_step f) xs acc r w
  = fold_left (search_step f) xs acc' r w0.
Proof.
  revert acc acc' w w0.
  induction xs as [|x xs IH]; intros acc acc' w w0 Hacc; simpl; [exact Hacc|].
  apply IH. unfold or, Promise.catch. by rewrite Hacc.
Qed.

(** A success found is kept to the end of the fold. *)
Lemma fold_or_fulfilled f xs acc r w w1 v :
  acc r w = (w1, Fulfilled v) ->
  fold_left (search_step f) xs acc r w = (w1, Fulfilled v).
Proof.
  revert acc.
  induction xs as [|x xs IH]; intros acc Hacc; simpl; [exact Hacc|].
  apply IH. by apply or_fulfilled.
Qed.

Lemma fold_or_exhausted f xs acc r w w0 y w' :
  acc r w = (w0, Rejected y) ->
  exhaust f r xs w0 = Some w' ->
  exists reason, fold_left (search_step f) xs acc r w = (w', Rejected reason).
Proof.
  revert acc w0 y.
  induction xs as [|x xs IH]; intros acc w0 y Hacc Hex; simpl in *.
  - injection Hex as <-. by exists y.
  - pose proof (candidate_run f x r w0) as Hx.
    destruct (f x r w0) as [w1 [a|z]].
    + destruct (strict_eq_null a); [|discriminate].
      eapply (IH _ w1); [|exact Hex].
      rewrite (or_rejected _ _ _ _ _ _ Hacc). exact Hx.
    + eapply (IH _ w1); [|exact Hex].
      rewrite (or_rejected _ _ _ _ _ _ Hacc). exact Hx.
Qed.

Lemma fold_or_found f pre x post acc r w w0 y w1 w2 v :
  acc r w = (w0, Rejected y) ->
  exhaust f r pre w0 = Some w1 ->
  f x r w1 = (w2, Fulfilled v) ->
  v <> VNull ->
  fold_left (search_step f) (pre ++ x :: post) acc r w = (w2, Fulfilled v).
Proof.
  intros Hacc Hex Hx Hv. revert acc w0 y Hacc Hex.
  induction pre as [|x0 pre IH]; intros acc w0 y Hacc Hex; simpl in *.
  - injection Hex as <-.
    apply fold_or_fulfilled.
    rewrite (or_rejected _ _ _ _ _ _ Hacc), candidate_run, Hx.
    by destruct v.
  - pose proof (candidate_run f x0 r w0) as Hx0.
    destruct (f x0 r w0) as [w3 [a|z]].
    + destruct (strict_eq_null a); [|discriminate].
      eapply (IH _ w3); [|exact Hex].
      rewrite (or_rejected _ _ _ _ _ _ Hacc). exact Hx0.
    + eapply (IH _ w3); [|exact Hex].
      rewrite (or_rejected _ _ _ _ _ _ Hacc). exact Hx0.
Qed.

(** Every list is of one of the two kinds: exhausted, or with a first
    candidate that succeeds with a value other than [null]. *)
Lemma exhaust_or_first f r xs w :
  (exists w', exhaust f r xs w = Some w') \/
  (exists pre x post w1 w2 v,
     xs = pre ++ x :: post /\ exhaust f r pre w = Some w1 /\
     f x r w1 = (w2, Fulfilled v) /\ v <> VNull).
Proof.
  revert w. induction xs as [|x xs IH]; intros w.
  - left. by exists w.
  - assert (Hcons : forall w1,
      exhaust f r (x :: xs) w = exhaust f r xs w1 ->
      (forall pre, exhaust f r (x :: pre) w = exhaust f r pre w1) ->
      (exists w', exhaust f r (x :: xs) w = Some w') \/
      (exists pre x0 post w2 w3 v,
         x :: xs = pre ++ x0 :: post /\ exhaust f r pre w = Some w2 /\
         f x0 r w2 = (w3, Fulfilled v) /\ v <> VNull)).
    { intros w1 Hxs Hpre.
      destruct (IH w1) as [[w' Hex]|(pre & x0 & post & w2 & w3 & v & Hdec)].
      - left. exists w'. by rewrite Hxs.
      - destruct Hdec as (-> & Hex & Hx0 & Hv).
        right. exists (x :: pre), x0, post, w2, w3, v.
        by rewrite Hpre. }
    destruct (f x r w) as [w1 [a|z]] eqn:Hx.
    + destruct (strict_eq_null a) eqn:Ha.
      * apply (Hcons w1); [|intros pre]; simpl; by rewrite Hx, Ha.
      * right. exists [], x, xs, w, w1, a.
        repeat split; [done|]. by intros ->.
    + apply (Hcons w1); [|intros pre]; simpl; by rewrite Hx.
Qed.

(** C1: run with [r], [forEveryFirst(f, xs)] tries [f(xs[0])], [f(xs[1])],
    ... in list order, each in the world the one before left.  When the
    candidates before [x] all fail or yield [null] and [f(x)] succeeds with
    a value [v] other than [null], it succeeds with [v], and the items
    after [x] leave no trace.  When every candidate fails or yields
    [null], it fails; so it does for the empty list. *)
Theorem forEveryFirst_first_non_null f r w :
  (forall pre x post w1 w2 v,
     exhaust f r pre w = Some w1 ->
     f x r w1 = (w2, Fulfilled v) ->
     v <> VNull ->
     forEveryFirst f (pre ++ x :: post) r w = (w2, Fulfilled v)) /\
  (forall xs w',
     exhaust f r xs w = Some w' ->
     exists reason, forEveryFirst f xs r w = (w', Rejected reason)) /\
  forEveryFirst f [] r w = (w, Rejected VUndefined).
Proof.
  split; [|split].
  - intros pre x post w1 w2 v Hex Hx Hv.
    by eapply (fold_or_found f pre x post empty r w w VUndefined).
  - intros xs w' Hex.
    by eapply (fold_or_exhausted f xs empty r w w VUndefined).
  - reflexivity.
Qed.

(** C7: a success with [null] is a success to [or], [map] and [then]: for
    an effect [e] that succeeds with [null], [or(e, e2)] succeeds with
    [null] whatever [e2] is ([e2] is not invoked), as [or(pure(null), e2)]
    does; [map(fn, e)] succeeds with [fn(null)]; [then(e, k, ...)] goes on
    with [k(null)].  In [forEveryFirst] it is a miss: the search goes on
    with the next item, and fails when there is none. *)
Theorem null_is_data_except_in_forEveryFirst e r w w1 :
  e r w = (w1, Fulfilled VNull) ->
  (forall e2, or (pure VNull) e2 r w = (w, Fulfilled VNull)) /\
  (forall e2, or e e2 r w = (w1, Fulfilled VNull)) /\
  (forall fn, map fn e r w = (w1, Fulfilled (fn VNull))) /\
  (forall k ks, then_ e (k :: ks) r w = then_ (k VNull) ks r w1) /\
  (forall f x xs,
     f x = e ->
     forEveryFirst f (x :: xs) r w = forEveryFirst f xs r w1 /\
     forEveryFirst f [x] r w = (w1, Rejected VUndefined)).
Proof.
  intros He. repeat split.
  - intros e2. by apply or_fulfilled.
  - intros fn. unfold map, Promise.then_. by rewrite He.
  - intros k ks. by rewrite then_cons, He.
  - subst e. unfold forEveryFirst; simpl.
    apply fold_or_ext.
    unfold or, Promise.catch; simpl.
    by rewrite candidate_run, He.
  - subst e. unfold forEveryFirst; simpl.
    unfold or, Promise.catch; simpl.
    by rewrite candidate_run, He.
Qed.

End Search.

Lemma forEveryFirst_first_non_null_witness :
  forEveryFirst candidate [1; 2; 3]%Z VNull []
    = ([1; 2; 3]%Z, Fulfilled (VNum 30)) /\
  forEveryFirst candidate [1; 3; 2]%Z VNull []
    = ([1; 3]%Z, Fulfilled (VNum 30)) /\
  exists reason,
    forEveryFirst candidate [2; 1; 1]%Z VNull []
      = ([2; 1; 1]%Z, Rejected reason).
Proof.
  pose proof (forEveryFirst_first_non_null candidate VNull [])
    as (Hfound & Hnone & _).
  split; [|split].
  - apply (Hfound [1; 2]%Z 3%Z [] [1; 2]%Z); [reflexivity..|discriminate].
  - apply (Hfound [1]%Z 3%Z [2]%Z [1]%Z); [reflexivity..|discriminate].
  - apply Hnone. reflexivity.
Defined.

Lemma null_is_data_except_in_forEveryFirst_witness :
  or (counted VNull) counted_failure VNull 0 = (1, Fulfilled VNull) /\
  forEveryFirst counted [VNull; VNum 30] VNull 0
    = (2, Fulfilled (VNum 30)).
Proof.
  pose proof (null_is_data_except_in_forEveryFirst
                (X := value) (counted VNull) VNull 0 1 eq_refl)
    as (_ & Hor & _ & _ & Hsearch).
  split.
  - apply Hor.
  - rewrite (proj1 (Hsearch counted VNull [VNum 30] eq_refl)).
    reflexivity.
Defined.

(** ** The environment along a [then] *)

Section Threading.
Context {W R : Type}.
Implicit Types (e : PRPromise W R) (r : R) (w : W) (seen : list R).
Implicit Types (fns : list (value -> PRPromise W R)).

(** C9: with every stage of [then(e, fn1, ..., fnN)] under a spy, the run
    with [r] is the run without spies, and the environments the stages
    were invoked with are [n] copies of [r]: one for [e] and one for each
    continuation-produced effect that was run, all [N] of them when the
    composition succeeds. *)
Theorem then_same_environment e fns r w :
  exists n,
    1 <= n <= S (length fns) /\
    then_ (spy e) (spy_each fns) r (w, [])
    = ((fst (then_ e fns r w), replicate n r), snd (then_ e fns r w)) /\
    (forall a, snd (then_ e fns r w) = Fulfilled a -> n = S (length fns)).
Proof.
  unfold then_.
  destruct (fold_then_spied fns r (e r) (spy e r) w [] 1)
    as (m & Hm & Hrun & Hall).
  - exact (spy_run e r w []).
  - exists m. split; [lia|]. split; [exact Hrun|exact Hall].
Qed.

End Threading.

(** ** Extending the environment *)

Section Environment.
Context {X : Type}.
Implicit Types (c r : value) (p : PRPromise (World X) value) (w : World X).

(** An allocation leaves the fields of every live reference as they are:
    the new reference is none of them. *)
Lemma own_props_alloc (h : gmap loc (gmap string value)) (o : gmap string value)
    (v : value) :
  live h v -> own_props (<[fresh (dom h) := o]> h) v = own_props h v.
Proof.
  destruct v as [| | | | |l]; try done.
  simpl. intros Hl.
  rewrite lookup_insert_ne; [done|].
  intros <-. apply Hl, not_elem_of_dom, is_fresh.
Qed.

(** C8: invoked with a live environment [r], [extendConfig(c, p)] invokes
    [p] with a new object whose fields are those of [r] overlaid by those
    of [c] ([c] wins on a common key); the objects that were there, [r]
    among them, are as they were when [p] starts; and when [p] does not
    write to [r], [r] is unchanged after the call. *)
Theorem extendConfig_overlay c p r w :
  live (heap w) r ->
  exists (l : loc) (w' : World X),
    heap w !! l = None /\
    extendConfig c p r w = p (VObj l) w' /\
    rest w' = rest w /\
    (forall k,
       own_props (heap w') (VObj l) !! k =
       match own_props (heap w) c !! k with
       | Some v => Some v
       | None => own_props (heap w) r !! k
       end) /\
    (forall l0, heap w !! l0 <> None -> heap w' !! l0 = heap w !! l0) /\
    own_props (heap w') r = own_props (heap w) r /\
    ((forall v w0, own_props (heap (fst (p v w0))) r = own_props (heap w0) r) ->
     own_props (heap (fst (extendConfig c p r w))) r = own_props (heap w) r).
Proof.
  intros Hr.
  set (o := spread (spread ∅ (own_props (heap w) r)) (own_props (heap w) c)).
  set (l := fresh (dom (heap w))).
  assert (Hl : heap w !! l = None) by apply not_elem_of_dom, is_fresh.
  exists l, (mkWorld (<[l := o]> (heap w)) (rest w)).
  repeat split.
  - exact Hl.
  - intros k. simpl. rewrite lookup_insert_eq. simpl.
    unfold o, spread. rewrite lookup_union, lookup_union, lookup_empty.
    destruct (own_props (heap w) c !! k), (own_props (heap w) r !! k); done.
  - intros l0 Hl0. simpl. apply lookup_insert_ne. by intros <-.
  - by apply own_props_alloc.
  - intros Hp. unfold extendConfig. fold o l. rewrite Hp. simpl.
    by apply own_props_alloc.
Qed.

End Environment.

Lemma extendConfig_overlay_witness :
  live (heap two_records) (VObj 1) /\
  own_props (heap (fst (extendConfig (VObj 2) observe (VObj 1) two_records)))
            (VObj 1)
  = own_props (heap two_records) (VObj 1).
Proof.
  assert (Hlive : live (heap two_records) (VObj 1)) by (by vm_compute).
  split; [exact Hlive|].
  destruct (extendConfig_overlay (VObj 2) observe (VObj 1) two_records Hlive)
    as (l & w' & _ & _ & _ & _ & _ & _ & Hafter).
  apply Hafter. intros v w0. reflexivity.
Defined.

(** ** The scenarios of the specification, run *)

(** Items [1,2,3]: [null], a failure, then [30]; the three candidates were
    tried in list order. *)
Example forEveryFirst_ordering :
  forEveryFirst candidate [1; 2; 3]%Z VNull []
  = ([1; 2; 3]%Z, Fulfilled (VNum 30)).
Proof. reflexivity. Qed.

(** Items [1,3,2]: the effect of item [2] is not run. *)
Example forEveryFirst_stops :
  forEveryFirst candidate [1; 3; 2]%Z VNull []
  = ([1; 3]%Z, Fulfilled (VNum 30)).
Proof. reflexivity. Qed.

(** [extendConfig({owner:"C"}, observe)] against [{server:"A", owner:"B"}]:
    the effect sees [{server:"A", owner:"C"}], and the caller's record is
    as it was. *)
Example extendConfig_scenario :
  let after := extendConfig (VObj 2) observe (VObj 1) two_records in
  snd after = Fulfilled (VStr "C") /\
  rest (fst after)
  = [<["server" := VStr "A"]> (<["owner" := VStr "C"]> ∅)] /\
  heap (fst after) !! 1%positive
  = Some (<["server" := VStr "A"]> (<["owner" := VStr "B"]> ∅)).
Proof. by vm_compute. Qed.

(** A spied chain whose third stage fails: three invocations, all with the
    environment of the caller; the fourth stage is not invoked. *)
Example then_spied_run :
  then_ (spy (counted (VNum 1)))
        (spy_each [counted_echo; fun _ => counted_failure; counted_echo])
        (VStr "env") (0, [])
  = ((3, [VStr "env"; VStr "env"; VStr "env"]),
     Rejected (VStr "TypeError: Failed to fetch")).
Proof. reflexivity. Qed.

(** [when] gates on the environment; with [or] it gives a default. *)
Example when_gating :
  when (fun flag : bool => flag) (VNum 42) true tt = (tt, Fulfilled (VNum 42)) /\
  when (fun flag : bool => flag) (VNum 42) false tt = (tt, Rejected VUndefined) /\
  or (when (fun flag : bool => flag) (VStr "needs-merge"))
     (pure (VStr "no-merge-needed")) false tt
  = (tt, Fulfilled (VStr "no-merge-needed")).
Proof. by repeat split. Qed.

(** * Further laws of the combinators *)

(** ** [map], [then], [chain], [or] and [when] together *)

Section Algebra.
Context {W R : Type}.
Implicit Types (e : PRPromise W R) (r : R) (w : W) (a b : value).
Implicit Types (fn gn : value -> value) (f g h k : value -> PRPromise W R).
Implicit Types (fns fs gs ks : list (value -> PRPromise W R)).

(** X1: mapping twice is mapping once with the composed function. *)
Theorem map_compose fn gn e r w :
  map gn (map fn e) r w = map (fun a => gn (fn a)) e r w.
Proof.
  unfold map, Promise.then_, Promise.resolve.
  by destruct (e r w) as [w1 [a|x]].
Qed.

(** X2: [map] goes through [or]: mapping the result of a fallback is the
    fallback of the mapped effects. *)
Theorem map_or fn e1 e2 r w :
  map fn (or e1 e2) r w = or (map fn e1) (map fn e2) r w.
Proof.
  unfold map, or, Promise.then_, Promise.catch, Promise.resolve.
  by destruct (e1 r w) as [w1 [a|x]].
Qed.

(** X3: [map(fn, e)] is [then(e, a => pure(fn(a)))], and mapping a [then]
    appends that continuation to it. *)
Theorem map_as_then fn e fs r w :
  map fn e r w = then_ e [fun a => pure (fn a)] r w /\
  map fn (then_ e fs) r w = then_ e (fs ++ [fun a => pure (fn a)]) r w.
Proof.
  assert (Hmap : forall e', map fn e' r w = then_ e' [fun a => pure (fn a)] r w).
  { intros e'. rewrite then_cons. unfold map, Promise.then_.
    by destruct (e' r w) as [w1 [a|x]]. }
  split; [apply Hmap|].
  by rewrite Hmap, then_then.
Qed.

(** X4: [pure] is the unit of [then]: [then(pure(a), f, ...)] is
    [then(f(a), ...)], and a trailing [pure] continuation changes
    nothing. *)
Theorem then_pure_unit e a f fs r w :
  then_ (pure a) (f :: fs) r w = then_ (f a) fs r w /\
  then_ e (fs ++ [pure]) r w = then_ e fs r w.
Proof.
  split; [by rewrite then_cons|].
  rewrite then_app.
  destruct (then_ e fs r w) as [w1 [b|x]]; [|done].
  by rewrite then_cons.
Qed.

(** X5: [chain] is associative and [pure] is its unit on both sides. *)
Theorem chain_assoc_unit f g h a r w :
  chain (chain f g) h a r w = chain f (chain g h) a r w /\
  chain pure f a r w = f a r w /\
  chain f pure a r w = f a r w.
Proof.
  unfold chain, then_; simpl; unfold Promise.then_.
  split; [|split].
  - destruct (f a r w) as [w1 [b|x]]; [|done].
    by destruct (g b r w1) as [w2 [c|y]].
  - reflexivity.
  - by destruct (f a r w) as [w1 [b|x]].
Qed.

(** X6: two neighbouring continuations of a [then] can be replaced by their
    [chain], wherever they stand in the list. *)
Theorem then_chain_anywhere e fs f g ks r w :
  then_ e (fs ++ f :: g :: ks) r w = then_ e (fs ++ chain f g :: ks) r w.
Proof.
  rewrite !then_app.
  destruct (then_ e fs r w) as [w1 [b|x]]; [|done].
  rewrite (then_cons (pure b) f), (then_cons (pure b) (chain f g)). simpl.
  unfold chain. by rewrite then_then.
Qed.

(** X7: [empty] is the unit of [or] on the left; on the right it keeps the
    world and a success of [e], and replaces the reason of a failure of [e]
    by [undefined]. *)
Theorem or_empty e r w :
  or empty e r w = e r w /\
  or e empty r w =
  match e r w with
  | (w1, Fulfilled a) => (w1, Fulfilled a)
  | (w1, Rejected _) => (w1, Rejected VUndefined)
  end.
Proof.
  split; [reflexivity|].
  unfold or, Promise.catch. by destruct (e r w) as [w1 [a|x]].
Qed.

(** X8: a fallback that ends in [pure(a)] never fails: it succeeds with
    the value of [e], or with [a] in the world the failed [e] left. *)
Theorem or_pure_never_fails e a r w :
  exists v,
    or e (pure a) r w = (fst (e r w), Fulfilled v) /\
    (snd (e r w) = Fulfilled v \/
     (v = a /\ exists x, snd (e r w) = Rejected x)).
Proof.
  unfold or, Promise.catch.
  destruct (e r w) as [w1 [b|x]]; simpl.
  - exists b. split; [done|by left].
  - exists a. split; [done|right; eauto].
Qed.

(** X9: [or(when(p, a), pure(b))] is a conditional on the environment: it
    succeeds with [a] when [p(r)] holds and with [b] when not, and leaves
    the world as it is. *)
Theorem when_or_default (p : R -> bool) a b r w :
  or (when p a) (pure b) r w = (w, Fulfilled (if p r then a else b)).
Proof. unfold or, when, Promise.catch. by destruct (p r). Qed.

(** X10: [when] guards a [then]: the continuations run on [a] when [p(r)]
    holds; when not, the composition fails with no payload, nothing is run
    and the world is as it was. *)
Theorem when_guards_then (p : R -> bool) a k ks r w :
  then_ (when p a) (k :: ks) r w =
  if p r then then_ (k a) ks r w else (w, Rejected VUndefined).
Proof. rewrite then_cons. unfold when. by destruct (p r). Qed.

End Algebra.

(** ** More on [forEveryFirst] *)

Section SearchLaws.
Context {W R X : Type}.
Implicit Types (r : R) (w : W) (f : X -> PRPromise W R) (xs ys : list X).

(** The search over [xs ++ [x]], the candidates of [xs] being exhausted, is
    the last candidate under [rejectOnNull]. *)
Lemma forEveryFirst_last f xs x r w w1 :
  exhaust f r xs w = Some w1 ->
  forEveryFirst f (xs ++ [x]) r w = then_ (f x) [rejectOnNull] r w1.
Proof.
  intros Hex. unfold forEveryFirst. rewrite fold_left_app. simpl.
  destruct (fold_or_exhausted f xs empty r w w VUndefined w1 eq_refl Hex)
    as [y Hxs].
  by apply or_rejected with (x := y).
Qed.

(** X11: [forEveryFirst] never succeeds with [null]. *)
Theorem forEveryFirst_never_null f xs r w w' v :
  forEveryFirst f xs r w = (w', Fulfilled v) -> v <> VNull.
Proof.
  intros Hrun.
  destruct (exhaust_or_first f r xs w)
    as [[w1 Hex]|(pre & x & post & w1 & w2 & v' & -> & Hpre & Hx & Hv)].
  - destruct (fold_or_exhausted f xs empty r w w VUndefined w1 eq_refl Hex)
      as [y Hxs].
    unfold forEveryFirst in Hrun. congruence.
  - pose proof (fold_or_found f pre x post empty r w w VUndefined w1 w2 v'
                  eq_refl Hpre Hx Hv) as Hfound.
    unfold forEveryFirst in Hrun. congruence.
Qed.

(** X12: [forEveryFirst] succeeds exactly when some candidate [x], tried
    in its turn after the candidates before it failed or yielded [null],
    succeeds with a value other than [null]. *)
Theorem forEveryFirst_succeeds_iff f xs r w :
  (exists w' v, forEveryFirst f xs r w = (w', Fulfilled v)) <->
  (exists pre x post w1 w2 v,
     xs = pre ++ x :: post /\ exhaust f r pre w = Some w1 /\
     f x r w1 = (w2, Fulfilled v) /\ v <> VNull).
Proof.
  split.
  - intros (w' & v & Hrun).
    destruct (exhaust_or_first f r xs w) as [[w1 Hex]|Hfound]; [|exact Hfound].
    destruct (fold_or_exhausted f xs empty r w w VUndefined w1 eq_refl Hex)
      as [y Hxs].
    unfold forEveryFirst in Hrun. congruence.
  - intros (pre & x & post & w1 & w2 & v & -> & Hpre & Hx & Hv).
    exists w2, v.
    exact (fold_or_found f pre x post empty r w w VUndefined w1 w2 v
             eq_refl Hpre Hx Hv).
Qed.

(** X13: the failure of an exhausted search is that of its last candidate:
    it carries the reason the last candidate was rejected with, and
    [undefined] when the last candidate yielded [null]. *)
Theorem forEveryFirst_exhausted_reason f xs x r w w1 :
  exhaust f r xs w = Some w1 ->
  (forall w2 y,
     f x r w1 = (w2, Rejected y) ->
     forEveryFirst f (xs ++ [x]) r w = (w2, Rejected y)) /\
  (forall w2,
     f x r w1 = (w2, Fulfilled VNull) ->
     forEveryFirst f (xs ++ [x]) r w = (w2, Rejected VUndefined)).
Proof.
  intros Hex.
  split; intros; rewrite (forEveryFirst_last _ _ _ _ _ _ Hex), candidate_run;
    by rewrite H.
Qed.

(** X14: searching [xs ++ ys], with [ys] not empty, is searching [xs] and,
    if that fails, searching [ys]. *)
Theorem forEveryFirst_app f xs ys r w :
  ys <> [] ->
  forEveryFirst f (xs ++ ys) r w
  = or (forEveryFirst f xs) (forEveryFirst f ys) r w.
Proof.
  destruct ys as [|y ys]; [done|]. intros _.
  unfold forEveryFirst at 1. rewrite fold_left_app.
  fold (forEveryFirst f xs).
  destruct (forEveryFirst f xs r w) as [w1 [v|z]] eqn:Hxs.
  - rewrite (or_fulfilled _ _ _ _ _ _ Hxs).
    by apply fold_or_fulfilled.
  - rewrite (or_rejected _ _ _ _ _ _ Hxs).
    unfold forEveryFirst at 2. simpl.
    apply fold_or_ext.
    by rewrite (or_rejected _ _ _ _ _ _ Hxs).
Qed.

End SearchLaws.

Lemma forEveryFirst_never_null_witness :
  forEveryFirst candidate [1; 3]%Z VNull [] = ([1; 3]%Z, Fulfilled (VNum 30)) /\
  VNum 30 <> VNull.
Proof.
  assert (Hrun : forEveryFirst candidate [1; 3]%Z VNull []
                 = ([1; 3]%Z, Fulfilled (VNum 30))) by reflexivity.
  split; [exact Hrun|].
  exact (forEveryFirst_never_null candidate [1; 3]%Z VNull [] _ _ Hrun).
Defined.

Lemma forEveryFirst_exhausted_reason_witness :
  forEveryFirst null_or_failure ([true] ++ [false]) VNull 0
    = (2, Rejected (VStr "TypeError: Failed to fetch")) /\
  forEveryFirst null_or_failure ([false] ++ [true]) VNull 0
    = (2, Rejected VUndefined).
Proof.
  split.
  - apply (proj1 (forEveryFirst_exhausted_reason
                    null_or_failure [true] false VNull 0 1 eq_refl)).
    reflexivity.
  - apply (proj2 (forEveryFirst_exhausted_reason
                    null_or_failure [false] true VNull 0 1 eq_refl)).
    reflexivity.
Defined.

Lemma forEveryFirst_app_witness :
  forEveryFirst candidate ([1; 2] ++ [3; 2])%Z VNull []
  = or (forEveryFirst candidate [1; 2]%Z) (forEveryFirst candidate [3; 2]%Z)
       VNull [].
Proof.
  apply (forEveryFirst_app candidate [1; 2]%Z [3; 2]%Z VNull []).
  discriminate.
Defined.

(** ** Nested extensions of the environment *)

Section EnvironmentLaws.
Context {X : Type}.
Implicit Types (c r : value) (p : PRPromise (World X) value) (w : World X).

(** X15: under two nested extensions the effect is invoked with one more
    new object, whose fields are those of [r] overlaid by the outer record
    [c1] and then by the inner record [c2]: on a common key the inner record
    wins, then the outer one.  No object that was there is written. *)
Theorem extendConfig_nested c1 c2 p r w :
  live (heap w) c2 ->
  exists (l : loc) (w' : World X),
    heap w !! l = None /\
    extendConfig c1 (extendConfig c2 p) r w = p (VObj l) w' /\
    rest w' = rest w /\
    (forall k,
       own_props (heap w') (VObj l) !! k =
       match own_props (heap w) c2 !! k with
       | Some v => Some v
       | None =>
           match own_props (heap w) c1 !! k with
           | Some v => Some v
           | None => own_props (heap w) r !! k
           end
       end) /\
    (forall l0, heap w !! l0 <> None -> heap w' !! l0 = heap w !! l0).
Proof.
  intros Hc2.
  set (o1 := spread (spread ∅ (own_props (heap w) r)) (own_props (heap w) c1)).
  set (l1 := fresh (dom (heap w))).
  set (h1 := <[l1 := o1]> (heap w)).
  set (o2 := spread (spread ∅ (own_props h1 (VObj l1))) (own_props h1 c2)).
  set (l2 := fresh (dom h1)).
  assert (Hl1 : heap w !! l1 = None) by apply not_elem_of_dom, is_fresh.
  assert (Hl2 : h1 !! l2 = None) by apply not_elem_of_dom, is_fresh.
  assert (Hne : l1 <> l2).
  { intros Heq. rewrite <- Heq in Hl2. unfold h1 in Hl2.
    by rewrite lookup_insert_eq in Hl2. }
  assert (Hl2' : heap w !! l2 = None).
  { unfold h1 in Hl2. by rewrite lookup_insert_ne in Hl2. }
  exists l2, (mkWorld (<[l2 := o2]> h1) (rest w)).
  split; [exact Hl2'|]. split; [reflexivity|]. split; [reflexivity|]. split.
  - intros k. simpl. rewrite lookup_insert_eq. simpl.
    unfold o2, spread. rewrite !lookup_union, lookup_empty.
    replace (own_props h1 c2) with (own_props (heap w) c2)
      by (symmetry; by apply own_props_alloc).
    replace (own_props h1 (VObj l1)) with o1
      by (simpl; unfold h1; by rewrite lookup_insert_eq).
    unfold o1, spread. rewrite !lookup_union, lookup_empty.
    destruct (own_props (heap w) c2 !! k), (own_props (heap w) c1 !! k),
      (own_props (heap w) r !! k); done.
  - intros l0 Hl0. simpl.
    rewrite lookup_insert_ne by (by intros <-).
    unfold h1. rewrite lookup_insert_ne; [done|by intros <-].
Qed.

End EnvironmentLaws.

Lemma extendConfig_nested_witness :
  live (heap two_records) (VObj 1) /\
  snd (extendConfig (VObj 2) (extendConfig (VObj 1) observe) (VObj 2)
         two_records)
  = Fulfilled (VStr "B").
Proof.
  assert (Hlive : live (heap two_records) (VObj 1)) by (by vm_compute).
  split; [exact Hlive|].
  destruct (extendConfig_nested (VObj 2) (VObj 1) observe (VObj 2)
              two_records Hlive)
    as (l & w' & _ & -> & _ & Hfields & _).
  unfold observe. simpl. by rewrite Hfields.
Defined.

(** * The leaf effects *)

Section LeafLaws.
Context {X : Type}.
Variable apiPath : string.
Variable Number_toString : Z -> string.
Variable fetch : string -> Promise.t (World X).
Variable json : value -> Promise.t (World X).
Variable Path_join : list value -> value + string.
Variable cannot_destructure : value -> value.
Implicit Types (r c path : value) (w : World X).

Local Abbreviation repoGetJSON :=
  (repoGetJSON apiPath Number_toString fetch json).
Local Abbreviation getPrJson :=
  (getPrJson apiPath Number_toString fetch json Path_join cannot_destructure).
Local Abbreviation ToString := (ToString Number_toString).

(** X16: against a record with the strings [s], [ow], [rp] under [server],
    [owner], [repo], [repoGetJSON(pth)] requests
    [s/apiPath/repos/ow/rp/pth]; a record without [owner] is no error: the
    request is made with the text [undefined] in its place. *)
Theorem repoGetJSON_request (l : loc) (o : gmap string value)
    (s rp pth : string) w :
  heap w !! l = Some o ->
  o !! "server" = Some (VStr s) ->
  o !! "repo" = Some (VStr rp) ->
  (forall ow,
     o !! "owner" = Some (VStr ow) ->
     repoGetJSON (VStr pth) (VObj l) w
     = Some (Promise.then_
               (fetch (s +:+ "/" +:+ apiPath +:+ "/repos/" +:+ ow +:+ "/"
                       +:+ rp +:+ "/" +:+ pth))
               json w)) /\
  (o !! "owner" = None ->
   repoGetJSON (VStr pth) (VObj l) w
   = Some (Promise.then_
             (fetch (s +:+ "/" +:+ apiPath +:+ "/repos/" +:+ "undefined"
                     +:+ "/" +:+ rp +:+ "/" +:+ pth))
             json w)).
Proof.
  intros Hl Hs Hrp.
  split; [intros ow How|intros How];
    unfold PRP.repoGetJSON, repo_url, get; simpl;
    by rewrite Hl; simpl; rewrite Hs, Hrp, How.
Qed.

(** X17: called with [undefined] or [null], [repoGetJSON(path)] throws
    before any request.  Otherwise a request that fails is the failure of
    the effect, with the reason of the request and in the world the request
    left, whatever reading the body would do; a request that succeeds
    hands its response to [json]. *)
Theorem repoGetJSON_outcome path r w :
  (nullish r = true -> repoGetJSON path r w = None) /\
  (nullish r = false ->
   (forall w1 x,
      fetch (repo_url apiPath Number_toString (heap w) path r) w
      = (w1, Rejected x) ->
      repoGetJSON path r w = Some (w1, Rejected x)) /\
   (forall w1 res,
      fetch (repo_url apiPath Number_toString (heap w) path r) w
      = (w1, Fulfilled res) ->
      repoGetJSON path r w = Some (json res w1))).
Proof.
  unfold PRP.repoGetJSON, Promise.then_.
  split; [by intros ->|]. intros ->.
  split; intros w1 y Hfetch; by rewrite Hfetch.
Qed.

(** X18: a request that fails is no failure of [getPrJson]: the effect
    succeeds with [null].  So [or(getPrJson, alt)] succeeds with [null] and
    [alt] is not run, while a [forEveryFirst] whose candidate is
    [getPrJson] goes on with the next item. *)
Theorem getPrJson_failed_request_is_null r w pth w1 x :
  nullish r = false ->
  Path_join [VStr apiPath; VStr "repos"; get (heap w) r "owner";
             get (heap w) r "repo"; VStr "pulls"; get (heap w) r "prId"]
  = inr pth ->
  fetch ("https://" +:+ ToString (get (heap w) r "server") +:+ "/" +:+ pth) w
  = (w1, Rejected x) ->
  getPrJson r w = (w1, Fulfilled VNull) /\
  (forall alt, or getPrJson alt r w = (w1, Fulfilled VNull)) /\
  (forall (Y : Type) (f : Y -> PRPromise (World X) value) y ys,
     f y = getPrJson ->
     forEveryFirst f (y :: ys) r w = forEveryFirst f ys r w1).
Proof.
  intros Hr Hjoin Hfetch.
  assert (Hrun : getPrJson r w = (w1, Fulfilled VNull)).
  { unfold PRP.getPrJson. by rewrite Hr, Hjoin, Hfetch. }
  split; [exact Hrun|]. split.
  - intros alt. by apply or_fulfilled.
  - intros Y f y ys Hf. unfold forEveryFirst. simpl.
    apply fold_or_ext.
    unfold or, Promise.catch. simpl.
    by rewrite candidate_run, Hf, Hrun.
Qed.

(** X19: [getPrJson] fails in three cases and no other: the environment is
    [undefined] or [null]; [Path.join] throws; or the request succeeds and
    reading the body of the response fails.  In the first two no request
    was made. *)
Theorem getPrJson_rejected_only_if r w w' x :
  getPrJson r w = (w', Rejected x) ->
  (nullish r = true /\ w' = w /\ x = cannot_destructure r) \/
  (nullish r = false /\ w' = w /\
   Path_join [VStr apiPath; VStr "repos"; get (heap w) r "owner";
              get (heap w) r "repo"; VStr "pulls"; get (heap w) r "prId"]
   = inl x) \/
  (exists pth res w1,
     nullish r = false /\
     Path_join [VStr apiPath; VStr "repos"; get (heap w) r "owner";
                get (heap w) r "repo"; VStr "pulls"; get (heap w) r "prId"]
     = inr pth /\
     fetch ("https://" +:+ ToString (get (heap w) r "server") +:+ "/" +:+ pth) w
     = (w1, Fulfilled res) /\
     json res w1 = (w', Rejected x)).
Proof.
  unfold PRP.getPrJson. intros Hrun.
  destruct (nullish r) eqn:Hr.
  - left. by injection Hrun as <- <-.
  - destruct (Path_join _) as [thrown|pth] eqn:Hjoin.
    + right; left. by injection Hrun as <- <-.
    + right; right.
      destruct (fetch _ w) as [w1 [res|y]] eqn:Hfetch; [|discriminate].
      by exists pth, res, w1.
Qed.

(** X20: under [extendConfig(c, getPrJson)] the request is made from the
    fields of [r] overlaid by those of [c]: a field of [c] replaces the
    caller's in the URL.  The objects that were there are not written. *)
Theorem extendConfig_getPrJson c r w pth :
  let fld k := default (get (heap w) r k) (own_props (heap w) c !! k) in
  Path_join [VStr apiPath; VStr "repos"; fld "owner"; fld "repo";
             VStr "pulls"; fld "prId"] = inr pth ->
  exists w',
    rest w' = rest w /\
    (forall l0, heap w !! l0 <> None -> heap w' !! l0 = heap w !! l0) /\
    extendConfig c getPrJson r w =
    match fetch ("https://" +:+ ToString (fld "server") +:+ "/" +:+ pth) w' with
    | (w1, Rejected _) => (w1, Fulfilled VNull)
    | (w1, Fulfilled res) => json res w1
    end.
Proof.
  intros fld Hjoin.
  set (o := spread (spread ∅ (own_props (heap w) r)) (own_props (heap w) c)).
  set (l := fresh (dom (heap w))).
  assert (Hl : heap w !! l = None) by apply not_elem_of_dom, is_fresh.
  assert (Hget : forall k,
    get (<[l := o]> (heap w)) (VObj l) k = fld k).
  { intros k. unfold get, fld. simpl. rewrite lookup_insert_eq. simpl.
    unfold o, spread. rewrite !lookup_union, lookup_empty.
    unfold get.
    destruct (own_props (heap w) c !! k), (own_props (heap w) r !! k); done. }
  exists (mkWorld (<[l := o]> (heap w)) (rest w)).
  split; [done|]. split.
  - intros l0 Hl0. simpl. apply lookup_insert_ne. by intros <-.
  - unfold extendConfig. fold o l. unfold PRP.getPrJson. simpl.
    by rewrite !Hget, Hjoin.
Qed.

End LeafLaws.

Lemma repoGetJSON_request_witness :
  snd <$> repoGetJSON "api/v1" pretty fetch_up json_echo
            (VStr "pulls/3358") (VObj 1) request_world
  = Some (Fulfilled
            (VStr "qa.door43.org/api/v1/repos/unfoldingword/en_ult/pulls/3358")) /\
  snd <$> repoGetJSON "api/v1" pretty fetch_up json_echo
            (VStr "pulls/3358") (VObj 3) request_world
  = Some (Fulfilled
            (VStr "qa.door43.org/api/v1/repos/undefined/en_ult/pulls/3358")).
Proof.
  split.
  - rewrite (proj1 (repoGetJSON_request "api/v1" pretty fetch_up json_echo
                      1 full_record "qa.door43.org" "en_ult" "pulls/3358"
                      request_world eq_refl eq_refl eq_refl)
               "unfoldingword" eq_refl).
    reflexivity.
  - rewrite (proj2 (repoGetJSON_request "api/v1" pretty fetch_up json_echo
                      3 ownerless_record "qa.door43.org" "en_ult" "pulls/3358"
                      request_world eq_refl eq_refl eq_refl)
               eq_refl).
    reflexivity.
Defined.

Lemma repoGetJSON_outcome_witness :
  repoGetJSON "api/v1" pretty fetch_down json_echo
    (VStr "pulls/3358") VUndefined request_world = None /\
  snd <$> repoGetJSON "api/v1" pretty fetch_down json_echo
            (VStr "pulls/3358") (VObj 1) request_world
  = Some (Rejected (VStr "TypeError: Failed to fetch")).
Proof.
  split.
  - apply (proj1 (repoGetJSON_outcome "api/v1" pretty fetch_down json_echo
                    (VStr "pulls/3358") VUndefined request_world)).
    reflexivity.
  - rewrite (proj1 (proj2 (repoGetJSON_outcome "api/v1" pretty fetch_down
                             json_echo (VStr "pulls/3358") (VObj 1)
                             request_world) eq_refl)
               _ _ eq_refl).
    reflexivity.
Defined.

Lemma getPrJson_failed_request_is_null_witness :
  getPrJson "api/v1" pretty fetch_down json_echo join_strings
    destructure_error (VObj 1) request_world
  = (mkWorld (heap request_world)
       ["https://qa.door43.org/api/v1/repos/unfoldingword/en_ult/pulls/3358"],
     Fulfilled VNull).
Proof.
  apply (getPrJson_failed_request_is_null "api/v1" pretty fetch_down json_echo
           join_strings destructure_error (VObj 1) request_world
           "api/v1/repos/unfoldingword/en_ult/pulls/3358"
           _ (VStr "TypeError: Failed to fetch")
           eq_refl eq_refl eq_refl).
Defined.

Lemma extendConfig_getPrJson_witness :
  snd (extendConfig (VObj 2)
         (getPrJson "api/v1" pretty fetch_up json_echo join_strings
            destructure_error)
         (VObj 1) request_world)
  = Fulfilled
      (VStr "https://qa.door43.org/api/v1/repos/unfoldingword/en_ult/pulls/2").
Proof.
  destruct (extendConfig_getPrJson "api/v1" pretty fetch_up json_echo
              join_strings destructure_error (VObj 2) (VObj 1) request_world
              "api/v1/repos/unfoldingword/en_ult/pulls/2" eq_refl)
    as (w' & _ & _ & ->).
  reflexivity.
Defined.

Lemma getPrJson_rejected_only_if_witness :
  getPrJson "api/v1" pretty fetch_up json_broken join_strings
    destructure_error (VObj 1) request_world
  = (mkWorld (heap request_world)
       ["https://qa.door43.org/api/v1/repos/unfoldingword/en_ult/pulls/3358"],
     Rejected (VStr "SyntaxError: Unexpected token")) /\
  exists res w1,
    fetch_up "https://qa.door43.org/api/v1/repos/unfoldingword/en_ult/pulls/3358"
      request_world = (w1, Fulfilled res) /\
    json_broken res w1
    = (mkWorld (heap request_world)
         ["https://qa.door43.org/api/v1/repos/unfoldingword/en_ult/pulls/3358"],
       Rejected (VStr "SyntaxError: Unexpected token")).
Proof.
  assert (Hrun :
    getPrJson "api/v1" pretty fetch_up json_broken join_strings
      destructure_error (VObj 1) request_world
    = (mkWorld (heap request_world)
         ["https://qa.door43.org/api/v1/repos/unfoldingword/en_ult/pulls/3358"],
       Rejected (VStr "SyntaxError: Unexpected token"))) by reflexivity.
  split; [exact Hrun|].
  destruct (getPrJson_rejected_only_if "api/v1" pretty fetch_up json_broken
              join_strings destructure_error (VObj 1) request_world _ _ Hrun)
    as [(Hnull & _)|[(_ & Hsame & _)|(pth & res & w1 & _ & Hjoin & Hfetch & Hjson)]].
  - discriminate Hnull.
  - discriminate Hsame.
  - exists res, w1. split; [|exact Hjson].
    vm_compute in Hjoin. injection Hjoin as <-. exact Hfetch.
Defined.

(** * Where a fallback stands *)

Section Placement.
Context {W R : Type}.
Implicit Types (e : PRPromise W R) (r : R) (w : W).
Implicit Types (k : value -> PRPromise W R).

(** X21: a fallback covers what stands inside it and nothing after it.
    When [e1] succeeds with [b] and the continuation [k(b)] fails,
    [then(or(e1, e2), k)] fails with the reason of [k(b)] and [e2] is not
    run, while [or(then(e1, k), e2)] runs [e2] in the world [k(b)] left. *)
Theorem or_covers_what_is_inside e1 e2 k r w w1 b w2 x :
  e1 r w = (w1, Fulfilled b) ->
  k b r w1 = (w2, Rejected x) ->
  then_ (or e1 e2) [k] r w = (w2, Rejected x) /\
  or (then_ e1 [k]) e2 r w = e2 r w2.
Proof.
  intros He1 Hk. split.
  - rewrite then_cons, (or_fulfilled _ _ _ _ _ _ He1). exact Hk.
  - apply or_rejected with (x := x).
    rewrite then_cons, He1. exact Hk.
Qed.

End Placement.

Lemma or_covers_what_is_inside_witness :
  then_ (or (counted (VNum 1)) (counted (VNum 2))) [fun _ => counted_failure]
        VNull 0
    = (2, Rejected (VStr "TypeError: Failed to fetch")) /\
  or (then_ (counted (VNum 1)) [fun _ => counted_failure]) (counted (VNum 2))
     VNull 0
    = (3, Fulfilled (VNum 2)).
Proof.
  pose proof (or_covers_what_is_inside
                (counted (VNum 1)) (counted (VNum 2))
                (fun _ => counted_failure) VNull 0 1 (VNum 1) 2
                (VStr "TypeError: Failed to fetch") eq_refl eq_refl)
    as [Hinside Houtside].
  split; [exact Hinside|].
  rewrite Houtside. reflexivity.
Defined.

End PRP.
